(** * Ronald, client-v2/path.cpp: path ingestion and path rendering

    A shallow embedding of [read_path], [is_coord_visible] and [draw_path]
    of [client-v2/path.cpp], and the properties of them that the
    specification states.

    The sketch runs on an AVR Arduino: [int], [unsigned int] and [size_t]
    are 16 bits wide, [long] is 32 bits wide.  Every fixed-width integer is
    a [Z] and every conversion the source performs is written out. *)

From Stdlib Require Import Ascii.
From stdpp Require Import base numbers list strings.

Local Open Scope Z_scope.

(** ** Fixed-width integers *)

(** Conversion to an unsigned integer of [w] bits. *)
Definition to_uint (w z : Z) : Z := z mod 2 ^ w.

(** Conversion to a two's complement integer of [w] bits. *)
Definition to_sint (w z : Z) : Z := (z + 2 ^ (w - 1)) mod 2 ^ w - 2 ^ (w - 1).

Definition to_uint8 : Z -> Z := to_uint 8.
Definition to_uint16 : Z -> Z := to_uint 16.
Definition to_int32 : Z -> Z := to_sint 32.

#[global] Arguments to_uint : simpl never.
#[global] Arguments to_sint : simpl never.
#[global] Arguments to_uint8 : simpl never.
#[global] Arguments to_uint16 : simpl never.
#[global] Arguments to_int32 : simpl never.

(** ** Data *)

(** Modelled from the spec: [coord_t], whose declaration ([map.h]) is not
    among the sources: a latitude and a longitude, both signed integers in
    the map's units.  A field holds the integer that [string_get_int]
    hands to it. *)
Record coord_t := Coord { lat : Z; lon : Z }.

Definition set_lat (v : Z) (c : coord_t) : coord_t := {| lat := v; lon := lon c |}.
Definition set_lon (v : Z) (c : coord_t) : coord_t := {| lat := lat c; lon := v |}.

(** Modelled from the spec: the variables of the map layer that
    [path.cpp] reads, whose declarations ([map.h]) are not among the
    sources: the map shown, the top left corner of the display window on
    that map, and the size of the window.  They are integers; a sum of two
    of them is their sum, and they compare as integers. *)
Record map_state := MapState {
  current_map_num : Z;
  screen_map_x : Z;
  screen_map_y : Z;
  display_window_width : Z;
  display_window_height : Z
}.

(** What [Serial.print] and [Serial.println] are given. *)
Inductive text :=
  | Str (s : string)
  | Num (z : Z).

(** What the program does to the outside, in the order it does it. *)
Inductive event :=
  | Malloc (bytes : Z) (granted : bool)
  | Print (t : text)
  | Println (t : text)
  | Load (index : Z) (in_bounds : bool)
  | DrawLine (x0 y0 x1 y1 color : Z).

(** [ST7735_BLUE] of the Adafruit ST7735 library. *)
Definition ST7735_BLUE : Z := 0x001F.

(** ** The collaborators *)

(** [serial_handling.h]: the serial line and the field parser.  A stream
    stands for everything the sender will ever send; [serial_readline]
    answers [None] when no further line ever arrives (the call blocks for
    good). *)
Class Transport := {
  stream : Type;
  Serial_available : stream -> bool;
  serial_readline : stream -> Z -> option (string * Z * stream);
  string_read_field : string -> Z -> Z -> string -> string * Z;
  string_get_int : string -> Z
}.

(** [map.h]: the conversions from map units to pixels on a map. *)
Class Geodesy := {
  latitude_to_y : Z -> Z -> Z;
  longitude_to_x : Z -> Z -> Z
}.

(** [sizeof(coord_t)]: the array of 255 coordinates that [read_path] can
    ask for at most fits the 16-bit [size_t]. *)
Class Target := {
  sizeof_coord_t : Z;
  sizeof_coord_t_range : 0 < sizeof_coord_t <= 257
}.

Section Program.

Context {transport : Transport} {geodesy : Geodesy} {target : Target}.

(** ** The machine *)

(** [avail_mem] is the value of [AVAIL_MEM] ([mem_syms.h]), an [int];
    [heap n] tells whether [malloc] grants [n] bytes, and with which
    contents; [stray i] is what lies in memory at index [i] of a path
    outside the block it points to. *)
Record world := World {
  path_errno : Z;
  view : map_state;
  serial_in : stream;
  avail_mem : Z;
  heap : Z -> option (nat -> coord_t);
  stray : Z -> coord_t;
  log : list event
}.

Definition with_path_errno (e : Z) (w : world) : world :=
  {| path_errno := e; view := view w; serial_in := serial_in w;
     avail_mem := avail_mem w; heap := heap w; stray := stray w; log := log w |}.

Definition with_serial_in (s : stream) (w : world) : world :=
  {| path_errno := path_errno w; view := view w; serial_in := s;
     avail_mem := avail_mem w; heap := heap w; stray := stray w; log := log w |}.

Definition with_log (l : list event) (w : world) : world :=
  {| path_errno := path_errno w; view := view w; serial_in := serial_in w;
     avail_mem := avail_mem w; heap := heap w; stray := stray w; log := l |}.

Definition emit (e : event) (w : world) : world := with_log (log w ++ [e]) w.

(** A computation on the machine: the world it leaves and, when the call
    returns, its result.  [None] is a call that does not return. *)
Definition M (A : Type) : Type := world -> option A * world.

#[global] Instance M_ret : MRet M := fun A a w => (Some a, w).
#[global] Instance M_bind : MBind M := fun A B k m w =>
  match m w with
  | (Some a, w') => k a w'
  | (None, w') => (None, w')
  end.

Definition hang {A} : M A := fun w => (None, w).
Definition gets {A} (f : world -> A) : M A := fun w => (Some (f w), w).
Definition modify (f : world -> world) : M unit := fun w => (Some tt, f w).
Definition out (e : event) : M unit := modify (emit e).

(** ** read_path *)

(** [while ( ! Serial.available() ) { };] *)
Definition wait_for_serial : M unit := fun w =>
  if Serial_available (serial_in w) then (Some tt, w) else (None, w).

(** [bytes_read = serial_readline(line, line_size);] *)
Definition readline (line_size : Z) : M (string * Z) := fun w =>
  match serial_readline (serial_in w) line_size with
  | Some (line, bytes_read, rest) => (Some (line, bytes_read), with_serial_in rest w)
  | None => (None, w)
  end.

(** [malloc(bytes)], cast to a pointer to [coord_t]: the block, seen as an
    array of [coord_t].  [heap] and [avail_mem] say how a call of
    [read_path] finds the allocator and the memory; what a granted request
    changes of them is not modelled, and they say nothing of a later call. *)
Definition malloc (bytes : Z) : M (option (list coord_t)) := fun w =>
  match heap w bytes with
  | Some junk =>
      (Some (Some (junk <$> seq 0 (Z.to_nat (bytes / sizeof_coord_t)))),
       emit (Malloc bytes true) w)
  | None => (Some None, emit (Malloc bytes false) w)
  end.

(** The loop [while ( tmp_length > 0 )] of [read_path]: [tmp_path] is the
    index in the block that the pointer has reached. *)
Fixpoint read_coords (line_size field_size : Z) (tmp_length : nat) (tmp_path : nat)
    (block : list coord_t) : M (list coord_t) :=
  match tmp_length with
  | O => mret block
  | S tmp_length' =>
      '(line, bytes_read) ← readline line_size;
      let field_index := 0 in
      let '(field, field_index) := string_read_field line field_index field_size " " in
      let block := alter (set_lat (string_get_int field)) tmp_path block in
      let '(field, field_index) := string_read_field line field_index field_size " " in
      let block := alter (set_lon (string_get_int field)) tmp_path block in
      read_coords line_size field_size tmp_length' (S tmp_path) block
  end.

(** What the caller holds when [read_path] returns: the value returned,
    [*length_p] and [*path_p] (the array, with its contents at the return). *)
Record read_path_result := ReadPath {
  returned : Z;
  length_p : Z;
  path_p : option (list coord_t)
}.

(** [uint16_t max_path_size = (AVAIL_MEM - 256) / sizeof(coord_t);]
    [sizeof] yields a [size_t], so the difference is converted to the
    16-bit unsigned type and the division is unsigned. *)
Definition max_path_size_of (avail : Z) : Z :=
  to_uint16 (to_uint16 (avail - 256) / sizeof_coord_t).

Definition read_path : M read_path_result :=
  let line_size := 40 in
  let field_size := 20 in
  let length_p := 0 in
  let path_p := None in
  modify (with_path_errno 0);;
  wait_for_serial;;
  avail ← gets avail_mem;
  let max_path_size := max_path_size_of avail in
  '(line, bytes_read) ← readline line_size;
  let field_index := 0 in
  let '(field, field_index) := string_read_field line field_index field_size " " in
  let field_value := to_int32 (string_get_int field) in
  if (field_value <? 0) || (max_path_size <? field_value) then
    modify (with_path_errno 1);;
    mret {| returned := 0; length_p := length_p; path_p := path_p |}
  else
    let tmp_length := to_uint8 field_value in
    let length_p := tmp_length in
    tmp_path ← malloc (to_uint16 (tmp_length * sizeof_coord_t));
    match tmp_path with
    | None =>
        modify (with_path_errno 2);;
        mret {| returned := 0; length_p := length_p; path_p := path_p |}
    | Some block =>
        block ← read_coords line_size field_size (Z.to_nat tmp_length) 0%nat block;
        mret {| returned := 1; length_p := length_p; path_p := Some block |}
    end.

(** ** is_coord_visible *)

Definition is_coord_visible (point : coord_t) : M Z :=
  m ← gets view;
  let point_map_y := to_uint16 (latitude_to_y (current_map_num m) (lat point)) in
  let point_map_x := to_uint16 (longitude_to_x (current_map_num m) (lon point)) in
  let r := Z.b2z (
    (screen_map_x m <? point_map_x) &&
    (point_map_x <? screen_map_x m + display_window_width m) &&
    (screen_map_y m <? point_map_y) &&
    (point_map_y <? screen_map_y m + display_window_height m)) in
  mret r.

(** ** draw_path *)

(** [path[index]]: inside the block the element, outside of it whatever
    the memory holds there. *)
Definition load (path : list coord_t) (index : Z) : M coord_t := fun w =>
  match (if 0 <=? index then path !! Z.to_nat index else None) with
  | Some c => (Some c, emit (Load index true) w)
  | None => (Some (stray w index), emit (Load index false) w)
  end.

(** [a && b] on integers: [b] is evaluated only when [a] is not 0. *)
Definition and_then (a b : M Z) : M bool :=
  x ← a;
  if x =? 0 then mret false
  else y ← b; mret (negb (y =? 0)).

(** [for (uint8_t i = 0; i < length; i++) body], entered with the counter
    at [i].  [fuel] bounds the number of times the condition is tested. *)
Fixpoint for_uint8 (fuel : nat) (length : Z) (body : Z -> M unit) (i : Z) : M unit :=
  match fuel with
  | O => hang
  | S fuel' =>
      if i <? length then
        body i;;
        for_uint8 fuel' length body (to_uint8 (i + 1))
      else mret tt
  end.

(** The body of the second loop of [draw_path]. *)
Definition draw_segment (path : list coord_t) (i : Z) : M unit :=
  both ← and_then (p ← load path i; is_coord_visible p)
                  (q ← load path (i + 1); is_coord_visible q);
  if both : bool then
    m ← gets view;
    p ← load path i;
    let start_x := to_int32 (longitude_to_x (current_map_num m) (lon p) - screen_map_x m) in
    p ← load path i;
    let start_y := to_int32 (latitude_to_y (current_map_num m) (lat p) - screen_map_y m) in
    q ← load path (i + 1);
    let stop_x := to_int32 (longitude_to_x (current_map_num m) (lon q) - screen_map_x m) in
    q ← load path (i + 1);
    let stop_y := to_int32 (latitude_to_y (current_map_num m) (lat q) - screen_map_y m) in
    out (Print (Str "Start Converted to: "));;
    out (Print (Num start_x));;
    out (Print (Str ", "));;
    out (Print (Num start_y));;
    out (Print (Str " Stop Converted to: "));;
    out (Print (Num stop_x));;
    out (Print (Str ", "));;
    out (Println (Num stop_y));;
    out (DrawLine start_x start_y stop_x stop_y ST7735_BLUE)
  else mret tt.

Definition draw_path (fuel : nat) (length : Z) (path : list coord_t) : M unit :=
  out (Println (Str "Path Received: "));;
  for_uint8 fuel length (fun i => mret tt) 0;;
  m ← gets view;
  p ← load path 0;
  let first_in_path_x := to_int32 (longitude_to_x (current_map_num m) (lon p)) in
  p ← load path 0;
  let first_in_path_y := to_int32 (latitude_to_y (current_map_num m) (lat p)) in
  for_uint8 fuel length (draw_segment path) 0.

End Program.

(** * What the specification speaks of *)

Section Specification.

Context {transport : Transport} {geodesy : Geodesy} {target : Target}.

(** ** The serial input *)

(** The count that a first line declares: [field_value] of [read_path]. *)
Definition declared_length (line : string) : Z :=
  to_int32 (string_get_int (string_read_field line 0 20 " ").1).

(** The coordinate that a line spells: its first field is the latitude,
    its second field the longitude. *)
Definition parse_coord (line : string) : coord_t :=
  let '(field1, next) := string_read_field line 0 20 " " in
  let '(field2, _) := string_read_field line next 20 " " in
  {| lat := string_get_int field1; lon := string_get_int field2 |}.

(** The next [n] lines of a stream, and what follows them. *)
Fixpoint next_lines (n : nat) (s : stream) : option (list string * stream) :=
  match n with
  | O => Some ([], s)
  | S n' =>
      match serial_readline s 40 with
      | Some (line, _, rest) =>
          match next_lines n' rest with
          | Some (lines, rest') => Some (line :: lines, rest')
          | None => None
          end
      | None => None
      end
  end.

(** The world that [read_path] leaves: the status code [e], the serial
    line at [rest], and [events] done after those of [w]. *)
Definition left_by_read_path (e : Z) (rest : stream) (events : list event) (w : world) : world :=
  {| path_errno := e; view := view w; serial_in := rest; avail_mem := avail_mem w;
     heap := heap w; stray := stray w; log := log w ++ events |}.

(** ** Visibility *)

(** The pixel of a point on the map shown, as [is_coord_visible] holds it
    in [point_map_x] and [point_map_y]. *)
Definition pixel_x (m : map_state) (point : coord_t) : Z :=
  to_uint16 (longitude_to_x (current_map_num m) (lon point)).
Definition pixel_y (m : map_state) (point : coord_t) : Z :=
  to_uint16 (latitude_to_y (current_map_num m) (lat point)).

(** The specification's test of visibility: strictly inside the window. *)
Definition in_window (m : map_state) (point : coord_t) : Prop :=
  screen_map_x m < pixel_x m point < screen_map_x m + display_window_width m /\
  screen_map_y m < pixel_y m point < screen_map_y m + display_window_height m.

#[global] Instance in_window_dec m point : Decision (in_window m point).
Proof. unfold in_window. apply _. Defined.

(** ** What one call of [draw_path] does *)

(** What [path[i]] yields, and whether [i] is an index of the block. *)
Definition element (path : list coord_t) (st : Z -> coord_t) (i : Z) : coord_t :=
  match (if 0 <=? i then path !! Z.to_nat i else None) with
  | Some c => c
  | None => st i
  end.

Definition inside (path : list coord_t) (i : Z) : bool :=
  bool_decide (0 <= i < Z.of_nat (length path)).

(** A point in the coordinates of the screen: the pixel on the map less
    the corner of the window, in an [int32_t]. *)
Definition screen_x (m : map_state) (point : coord_t) : Z :=
  to_int32 (longitude_to_x (current_map_num m) (lon point) - screen_map_x m).
Definition screen_y (m : map_state) (point : coord_t) : Z :=
  to_int32 (latitude_to_y (current_map_num m) (lat point) - screen_map_y m).

(** The events of the iteration of the second loop at counter [i]. *)
Definition segment_events (m : map_state) (st : Z -> coord_t) (path : list coord_t)
    (i : Z) : list event :=
  let p := element path st i in
  let q := element path st (i + 1) in
  Load i (inside path i) ::
  if bool_decide (in_window m p) then
    Load (i + 1) (inside path (i + 1)) ::
    if bool_decide (in_window m q) then
      [ Load i (inside path i); Load i (inside path i);
        Load (i + 1) (inside path (i + 1)); Load (i + 1) (inside path (i + 1));
        Print (Str "Start Converted to: "); Print (Num (screen_x m p));
        Print (Str ", "); Print (Num (screen_y m p));
        Print (Str " Stop Converted to: "); Print (Num (screen_x m q));
        Print (Str ", "); Println (Num (screen_y m q));
        DrawLine (screen_x m p) (screen_y m p) (screen_x m q) (screen_y m q) ST7735_BLUE ]
    else []
  else [].

(** The events of a call of [draw_path] that returns. *)
Definition draw_path_events (m : map_state) (st : Z -> coord_t) (length : Z)
    (path : list coord_t) : list event :=
  Println (Str "Path Received: ") ::
  Load 0 (inside path 0) :: Load 0 (inside path 0) ::
  (seqZ 0 length ≫= segment_events m st path).

(** The specification's rule for a segment: one line in blue between the
    two points on the screen when both are visible, nothing otherwise. *)
Definition segment_draws (m : map_state) (p q : coord_t) : list event :=
  if bool_decide (in_window m p /\ in_window m q) then
    [ DrawLine (screen_x m p) (screen_y m p) (screen_x m q) (screen_y m q) ST7735_BLUE ]
  else [].

Definition is_draw (e : event) : bool :=
  match e with DrawLine _ _ _ _ _ => true | _ => false end.

(** The draw commands among some events. *)
Definition draws (events : list event) : list event := List.filter is_draw events.

(** ** The frame of the renderer *)

(** A computation that touches nothing of the world but the log. *)
Definition logs_only {A} (c : M A) : Prop :=
  forall w, (c w).2 = with_log (log (c w).2) w.

End Specification.

(** ** A bench: a transport, a map and a target to run the program on

    The properties of the program are proved for any transport, map and
    target; the bench runs the program on inputs. *)

Module Bench.

(** The characters of [s] from position [n] on. *)
Fixpoint skip (n : nat) (s : string) : string :=
  match n, s with
  | O, _ => s
  | S n', String _ s' => skip n' s'
  | S _, EmptyString => EmptyString
  end.

(** The characters of [s] before the first [d], at most [room] of them. *)
Fixpoint upto (room : nat) (d : ascii) (s : string) : string :=
  match room, s with
  | S room', String c s' => if Ascii.eqb c d then EmptyString else String c (upto room' d s')
  | _, _ => EmptyString
  end.

Definition digit (c : ascii) : option Z :=
  let n := Z.of_nat (Ascii.nat_of_ascii c) in
  if (48 <=? n) && (n <=? 57) then Some (n - 48) else None.

Fixpoint digits (acc : Z) (s : string) : Z :=
  match s with
  | String c s' => match digit c with Some d => digits (10 * acc + d) s' | None => acc end
  | EmptyString => acc
  end.

Definition get_int (s : string) : Z :=
  match s with
  | String "-" s' => - digits 0 s'
  | _ => digits 0 s
  end.

Definition read_field (line : string) (index room : Z) (delim : string) : string * Z :=
  let d := match delim with String c _ => c | EmptyString => " "%char end in
  let f := upto (Z.to_nat (room - 1)) d (skip (Z.to_nat index) line) in
  (f, index + Z.of_nat (String.length f) + 1).

(** Modelled from the spec: the serial transport ([serial_handling]), which
    is not among the sources, after the line protocol of the
    specification: the sender's lines in order, a line holding decimal
    integers with one space between two fields. *)
#[export] Instance lines : Transport := {|
  stream := list string;
  Serial_available := fun s => match s with [] => false | _ => true end;
  serial_readline := fun s line_size =>
    match s with
    | [] => None
    | l :: rest => Some (l, Z.of_nat (String.length l), rest)
    end;
  string_read_field := read_field;
  string_get_int := get_int
|}.

(** Modelled from the spec: a map layer ([map]), which is not among the
    sources: one map unit is one pixel, on every map. *)
#[export] Instance flat : Geodesy := {|
  latitude_to_y := fun _ v => v;
  longitude_to_x := fun _ v => v
|}.

(** Modelled from the spec: a coordinate of two 32-bit integers, 8 bytes. *)
#[export] Instance avr : Target :=
  {| sizeof_coord_t := 8; sizeof_coord_t_range := ltac:(lia) |}.

(** The display window of the device, 128 by 160, at the corner (100, 100)
    of map 0. *)
Definition window : map_state :=
  {| current_map_num := 0; screen_map_x := 100; screen_map_y := 100;
     display_window_width := 128; display_window_height := 160 |}.

Definition junk : nat -> coord_t := fun _ => Coord 0 0.

(** A machine with [avail] bytes between heap and stack, [s] on the serial
    line, an allocator that grants every request when [grant] holds and
    none otherwise, and [c] in memory around every path. *)
Definition machine (avail : Z) (grant : bool) (c : coord_t) (s : list string) : world :=
  {| path_errno := 7; view := window; serial_in := s; avail_mem := avail;
     heap := fun _ => if grant then Some junk else None;
     stray := fun _ => c; log := [] |}.

End Bench.

(** * Properties *)

Section Ingestion.

Context {transport : Transport} {geodesy : Geodesy} {target : Target}.

Lemma with_serial_in_same (w : world) : with_serial_in (serial_in w) w = w.
Proof. by destruct w. Qed.

Lemma to_uint8_range z : 0 <= to_uint8 z < 256.
Proof. unfold to_uint8, to_uint. apply Z.mod_pos_bound. lia. Qed.

Lemma to_uint8_small z : 0 <= z < 256 -> to_uint8 z = z.
Proof. intros. unfold to_uint8, to_uint. by apply Z.mod_small. Qed.

Lemma to_uint16_small z : 0 <= z < 65536 -> to_uint16 z = z.
Proof. intros. unfold to_uint16, to_uint. by apply Z.mod_small. Qed.

Lemma to_int32_small z : - 2 ^ 31 <= z < 2 ^ 31 -> to_int32 z = z.
Proof.
  intros. unfold to_int32, to_sint.
  change (2 ^ (32 - 1)) with (2 ^ 31). rewrite Z.mod_small; lia.
Qed.

(** Below the reserve the subtraction wraps around and the ceiling is not
    0: it is 254 at least, whatever the size of a coordinate. *)
Lemma ceiling_below_reserve avail :
  0 <= avail < 256 -> 254 <= max_path_size_of avail.
Proof.
  intros Ha. pose proof sizeof_coord_t_range as Hs. unfold max_path_size_of.
  assert (Hwrap : to_uint16 (avail - 256) = avail + 65280).
  { unfold to_uint16, to_uint. change (2 ^ 16) with 65536.
    replace (avail - 256) with (avail + 65280 + (-1) * 65536) by lia.
    rewrite Z.mod_add by lia. apply Z.mod_small. lia. }
  rewrite Hwrap.
  assert (254 <= (avail + 65280) / sizeof_coord_t) by (apply Z.div_le_lower_bound; lia).
  assert ((avail + 65280) / sizeof_coord_t <= avail + 65280)
    by (apply Z.div_le_upper_bound; nia).
  rewrite to_uint16_small; lia.
Qed.

(** From the reserve up, as far as an [int] goes, the ceiling grows with
    the memory available. *)
Lemma ceiling_monotone_above_reserve a b :
  256 <= a <= b -> b < 32768 -> max_path_size_of a <= max_path_size_of b.
Proof.
  intros Hab Hb. pose proof sizeof_coord_t_range as Hs. unfold max_path_size_of.
  rewrite (to_uint16_small (a - 256)), (to_uint16_small (b - 256)) by lia.
  assert (Hdiv : forall z, 0 <= z < 32768 -> 0 <= z / sizeof_coord_t <= z).
  { intros z Hz. split; [apply Z.div_pos; lia|apply Z.div_le_upper_bound; nia]. }
  pose proof (Hdiv (a - 256)). pose proof (Hdiv (b - 256)).
  rewrite !to_uint16_small by lia. apply Z.div_le_mono; lia.
Qed.

(** The request for [n <= 255] coordinates is a block of [n] coordinates. *)
Lemma block_slots n :
  0 <= n < 256 -> to_uint16 (n * sizeof_coord_t) / sizeof_coord_t = n.
Proof.
  intros Hn. pose proof sizeof_coord_t_range as Hs.
  rewrite to_uint16_small by nia. apply Z.div_mul. lia.
Qed.

(** The loop of [read_path] fills the slots from [tmp_path] on with the
    coordinates of the lines it reads, in the order of the lines. *)
Lemma read_coords_fills (n : nat) : forall (p : nat) (block : list coord_t) (w : world)
    (lines : list string) (rest : stream),
  next_lines n (serial_in w) = Some (lines, rest) ->
  (p + n)%nat = length block ->
  read_coords 40 20 n p block w
  = (Some (take p block ++ (parse_coord <$> lines)), with_serial_in rest w).
Proof.
  induction n as [|n IH]; intros p block w lines rest Hlines Hlen; simpl in *.
  - injection Hlines as <- <-. rewrite with_serial_in_same.
    rewrite take_ge by lia. by rewrite app_nil_r.
  - unfold mbind, M_bind, readline.
    destruct (serial_readline (serial_in w) 40) as [[[line b] s1]|]; [|done].
    destruct (next_lines n s1) as [[ls r]|] eqn:Hn; [|done].
    injection Hlines as <- <-.
    rewrite fmap_cons. unfold parse_coord at 1.
    destruct (string_read_field line 0 20 " ") as [f1 next].
    destruct (string_read_field line next 20 " ") as [f2 next'].
    destruct (lookup_lt_is_Some_2 block p) as [c Hc]; [lia|].
    rewrite (IH _ _ (with_serial_in s1 w) ls r); [|done|rewrite !length_alter; lia].
    f_equal. f_equal.
    rewrite (take_S_r _ _ {| lat := string_get_int f1; lon := string_get_int f2 |}).
    + rewrite !take_alter_ge by lia. by rewrite <- app_assoc.
    + by rewrite !list_lookup_alter_eq, Hc.
Qed.

(** With a count in range and the request granted, [read_path] returns 1,
    stores the count cut to 8 bits as the length, reads that many lines and
    fills the array with their coordinates in order. *)
Lemma read_path_granted (w : world) (line : string) (bytes_read : Z) (rest rest' : stream)
    (junk : nat -> coord_t) (lines : list string) :
  Serial_available (serial_in w) = true ->
  serial_readline (serial_in w) 40 = Some (line, bytes_read, rest) ->
  0 <= declared_length line <= max_path_size_of (avail_mem w) ->
  heap w (to_uint16 (to_uint8 (declared_length line) * sizeof_coord_t)) = Some junk ->
  next_lines (Z.to_nat (to_uint8 (declared_length line))) rest = Some (lines, rest') ->
  read_path w
  = (Some {| returned := 1; length_p := to_uint8 (declared_length line);
             path_p := Some (parse_coord <$> lines) |},
     left_by_read_path 0 rest'
       [Malloc (to_uint16 (to_uint8 (declared_length line) * sizeof_coord_t)) true] w).
Proof.
  intros Havail Hline Hrange Hheap Hlines.
  unfold read_path, mbind, M_bind, modify, wait_for_serial, gets, readline,
    with_path_errno. simpl.
  rewrite Havail. simpl. rewrite Hline. simpl. unfold declared_length in *.
  destruct (string_read_field line 0 20 " ") as [field next]. simpl in *.
  set (N := to_int32 (string_get_int field)) in *.
  replace (N <? 0) with false by (symmetry; apply Z.ltb_ge; lia).
  replace (max_path_size_of (avail_mem w) <? N) with false by (symmetry; apply Z.ltb_ge; lia).
  simpl. unfold malloc. simpl. rewrite Hheap.
  pose proof (to_uint8_range N) as Hn.
  rewrite block_slots by done.
  erewrite read_coords_fills; [|exact Hlines|by rewrite length_fmap, length_seq].
  done.
Qed.

(** C3.  A declared count that is negative or above [max_path_size] makes
    [read_path] return 0 with length 0, no path and [path_errno] 1; the log
    is as it was (no allocation was asked for) and the serial line stands
    just after the count line (no coordinate line was read). *)
Theorem read_path_invalid_length (w : world) (line : string) (bytes_read : Z) (rest : stream) :
  Serial_available (serial_in w) = true ->
  serial_readline (serial_in w) 40 = Some (line, bytes_read, rest) ->
  declared_length line < 0 \/ max_path_size_of (avail_mem w) < declared_length line ->
  read_path w
  = (Some {| returned := 0; length_p := 0; path_p := None |},
     {| path_errno := 1; view := view w; serial_in := rest; avail_mem := avail_mem w;
        heap := heap w; stray := stray w; log := log w |}).
Proof.
  intros Havail Hline Hrange.
  unfold read_path, mbind, M_bind, modify, wait_for_serial, gets, readline,
    with_path_errno. simpl.
  rewrite Havail. simpl. rewrite Hline. simpl. unfold declared_length in *.
  destruct (string_read_field line 0 20 " ") as [field next]. simpl in *.
  set (N := to_int32 (string_get_int field)) in *.
  destruct Hrange as [Hneg|Hbig].
  - by replace (N <? 0) with true by (symmetry; apply Z.ltb_lt; lia).
  - replace (max_path_size_of (avail_mem w) <? N) with true
      by (symmetry; apply Z.ltb_lt; lia).
    by rewrite orb_true_r.
Qed.

(** C4, as amended.  When the allocator does not grant the block for a
    count [N] in range, [N <= 255], [read_path] returns 0 with no path and
    [path_errno] 2, and the length it has stored before asking is [N]. *)
Theorem read_path_out_of_memory (w : world) (line : string) (bytes_read : Z) (rest : stream) :
  Serial_available (serial_in w) = true ->
  serial_readline (serial_in w) 40 = Some (line, bytes_read, rest) ->
  0 <= declared_length line <= max_path_size_of (avail_mem w) ->
  declared_length line <= 255 ->
  heap w (declared_length line * sizeof_coord_t) = None ->
  read_path w
  = (Some {| returned := 0; length_p := declared_length line; path_p := None |},
     left_by_read_path 2 rest [Malloc (declared_length line * sizeof_coord_t) false] w).
Proof.
  intros Havail Hline Hrange Hsmall Hheap.
  unfold read_path, mbind, M_bind, modify, wait_for_serial, gets, readline,
    with_path_errno. simpl.
  rewrite Havail. simpl. rewrite Hline. simpl. unfold declared_length in *.
  destruct (string_read_field line 0 20 " ") as [field next]. simpl in *.
  set (N := to_int32 (string_get_int field)) in *.
  replace (N <? 0) with false by (symmetry; apply Z.ltb_ge; lia).
  replace (max_path_size_of (avail_mem w) <? N) with false by (symmetry; apply Z.ltb_ge; lia).
  pose proof sizeof_coord_t_range as Hs.
  simpl. unfold malloc. simpl.
  rewrite (to_uint8_small N) by lia.
  rewrite to_uint16_small by nia.
  by rewrite Hheap.
Qed.

End Ingestion.

Section Rendering.

Context {transport : Transport} {geodesy : Geodesy} {target : Target}.

Lemma is_coord_visible_run (point : coord_t) (w : world) :
  is_coord_visible point w
  = (Some (if bool_decide (in_window (view w) point) then 1 else 0), w).
Proof.
  unfold is_coord_visible, mbind, M_bind, gets, mret, M_ret. f_equal. f_equal.
  fold (pixel_x (view w) point) (pixel_y (view w) point).
  case_bool_decide as H; unfold in_window in H.
  - destruct H as [[H1 H2] [H3 H4]].
    apply Z.ltb_lt in H1, H2, H3, H4. by rewrite H1, H2, H3, H4.
  - destruct (_ <? pixel_x _ _) eqn:H1; [|done].
    destruct (pixel_x _ _ <? _) eqn:H2; [|done].
    destruct (_ <? pixel_y _ _) eqn:H3; [|done].
    destruct (pixel_y _ _ <? _) eqn:H4; [|done].
    apply Z.ltb_lt in H1, H2, H3, H4. tauto.
Qed.


Lemma load_run (path : list coord_t) (i : Z) (w : world) :
  load path i w = (Some (element path (stray w) i), emit (Load i (inside path i)) w).
Proof.
  unfold load, element, inside.
  destruct (0 <=? i) eqn:Hi.
  - apply Z.leb_le in Hi.
    destruct (path !! Z.to_nat i) as [c|] eqn:Hc.
    + apply lookup_lt_Some in Hc. by rewrite bool_decide_eq_true_2 by lia.
    + apply lookup_ge_None in Hc. by rewrite bool_decide_eq_false_2 by lia.
  - apply Z.leb_gt in Hi. by rewrite bool_decide_eq_false_2 by lia.
Qed.

Lemma with_log_log (w : world) : with_log (log w) w = w.
Proof. by destruct w. Qed.

Lemma emit_start (e : event) (w : world) : emit e w = with_log (log w ++ [e]) w.
Proof. reflexivity. Qed.

Lemma emit_with_log (e : event) (l : list event) (w : world) :
  emit e (with_log l w) = with_log (l ++ [e]) w.
Proof. reflexivity. Qed.

Lemma with_log_with_log (l1 l2 : list event) (w : world) :
  with_log l2 (with_log l1 w) = with_log l2 w.
Proof. reflexivity. Qed.

Lemma view_with_log (l : list event) (w : world) : view (with_log l w) = view w.
Proof. reflexivity. Qed.

Lemma stray_with_log (l : list event) (w : world) : stray (with_log l w) = stray w.
Proof. reflexivity. Qed.

Lemma log_with_log (l : list event) (w : world) : log (with_log l w) = l.
Proof. reflexivity. Qed.

(** Bring a world reached by successive events to [with_log (log w ++ _) w]. *)
Ltac gather_log w :=
  rewrite ?(emit_start _ w), ?emit_with_log, ?with_log_with_log,
    ?view_with_log, ?stray_with_log, ?log_with_log.

Lemma draw_segment_run (path : list coord_t) (i : Z) (w : world) :
  draw_segment path i w
  = (Some tt, with_log (log w ++ segment_events (view w) (stray w) path i) w).
Proof.
  unfold draw_segment, and_then, mbind, M_bind, gets, out, modify, mret, M_ret.
  rewrite load_run. cbv beta iota. rewrite is_coord_visible_run. cbv beta iota.
  gather_log w. unfold segment_events. cbv zeta.
  destruct (bool_decide (in_window (view w) (element path (stray w) i))).
  - cbn [Z.eqb]. rewrite load_run. cbv beta iota.
    rewrite is_coord_visible_run. cbv beta iota. gather_log w.
    destruct (bool_decide (in_window (view w) (element path (stray w) (i + 1)))).
    + cbn [Z.eqb negb].
      repeat (rewrite load_run; cbv beta iota; gather_log w).
      rewrite <- !app_assoc. reflexivity.
    + cbn [Z.eqb negb]. gather_log w. rewrite <- !app_assoc. reflexivity.
  - cbn [Z.eqb]. reflexivity.
Qed.

(** A loop on a [uint8_t] counter below a bound of at most 255 runs its
    body once for each value from the counter up to the bound. *)
Lemma for_uint8_run (m : map_state) (st : Z -> coord_t) (length : Z)
    (body : Z -> M unit) (ev : Z -> list event) :
  (forall j w, view w = m -> stray w = st ->
     body j w = (Some tt, with_log (log w ++ ev j) w)) ->
  length <= 255 ->
  forall (fuel : nat) (i : Z) (w : world),
    view w = m -> stray w = st -> 0 <= i ->
    (Z.to_nat (length - i) < fuel)%nat ->
    for_uint8 fuel length body i w
    = (Some tt, with_log (log w ++ (seqZ i (length - i) ≫= ev)) w).
Proof.
  intros Hbody Hlen. induction fuel as [|fuel IH]; intros i w Hm Hst Hi Hfuel; [lia|].
  simpl. destruct (i <? length) eqn:Hlt.
  - apply Z.ltb_lt in Hlt. unfold mbind at 1, M_bind at 1.
    rewrite (Hbody i w Hm Hst). rewrite to_uint8_small by lia.
    rewrite IH; [|by destruct w|by destruct w|lia|lia].
    rewrite (seqZ_cons i) by lia. rewrite bind_cons.
    replace (Z.pred (length - i)) with (length - (i + 1)) by lia.
    replace (Z.succ i) with (i + 1) by lia.
    rewrite with_log_with_log, log_with_log. by rewrite <- app_assoc.
  - apply Z.ltb_ge in Hlt. rewrite seqZ_nil by lia. simpl.
    by rewrite app_nil_r, with_log_log.
Qed.

(** Against a bound of 256 or more the counter never leaves the loop. *)
Lemma for_uint8_hangs (length : Z) (body : Z -> M unit) :
  256 <= length ->
  forall (fuel : nat) (i : Z) (w : world),
    0 <= i < 256 -> (for_uint8 fuel length body i w).1 = None.
Proof.
  intros Hlen. induction fuel as [|fuel IH]; intros i w Hi; [done|].
  simpl. replace (i <? length) with true by (symmetry; apply Z.ltb_lt; lia).
  unfold mbind, M_bind. destruct (body i w) as [[[]|] w']; [|done].
  apply IH, to_uint8_range.
Qed.

Lemma draw_path_run (fuel : nat) (length : Z) (path : list coord_t) (w : world) :
  length <= 255 ->
  (Z.to_nat length < fuel)%nat ->
  draw_path fuel length path w
  = (Some tt, with_log (log w ++ draw_path_events (view w) (stray w) length path) w).
Proof.
  intros Hlen Hfuel. unfold draw_path, out, modify, gets.
  unfold mbind at 1, M_bind at 1. cbv beta iota.
  unfold mbind at 1, M_bind at 1.
  rewrite (for_uint8_run (view w) (stray w) length (fun _ => mret tt) (fun _ => []));
    [|intros j w' _ _; by rewrite app_nil_r, with_log_log|done..|lia].
  cbv beta iota. unfold mbind, M_bind. rewrite load_run. cbv beta iota.
  rewrite load_run. cbv beta iota.
  rewrite (for_uint8_run (view w) (stray w) length (draw_segment path)
             (segment_events (view w) (stray w) path));
    [|intros j w' <- <-; apply draw_segment_run|done..|lia].
  assert (Hnil : forall l : list Z, l ≫= (fun _ => @nil event) = []).
  { induction l as [|x l IHl]; [done|]. by rewrite bind_cons, IHl. }
  rewrite !Z.sub_0_r, Hnil. gather_log w.
  unfold draw_path_events. rewrite app_nil_r, <- !app_assoc. reflexivity.
Qed.

Lemma draws_app (l1 l2 : list event) : draws (l1 ++ l2) = draws l1 ++ draws l2.
Proof. apply List.filter_app. Qed.

Lemma draws_bind {A} (f : A -> list event) (l : list A) :
  draws (l ≫= f) = l ≫= (fun x => draws (f x)).
Proof.
  induction l as [|x l IH]; [done|].
  by rewrite !bind_cons, draws_app, IH.
Qed.

Lemma draws_segment_events (m : map_state) (st : Z -> coord_t) (path : list coord_t) (i : Z) :
  draws (segment_events m st path i)
  = segment_draws m (element path st i) (element path st (i + 1)).
Proof.
  unfold segment_events, segment_draws. cbv zeta.
  destruct (decide (in_window m (element path st i))) as [Hp|Hp];
    destruct (decide (in_window m (element path st (i + 1)))) as [Hq|Hq].
  - by rewrite !bool_decide_eq_true_2 by tauto.
  - rewrite (bool_decide_eq_true_2 _ Hp), (bool_decide_eq_false_2 _ Hq).
    by rewrite bool_decide_eq_false_2 by tauto.
  - rewrite (bool_decide_eq_false_2 _ Hp).
    by rewrite bool_decide_eq_false_2 by tauto.
  - rewrite (bool_decide_eq_false_2 _ Hp).
    by rewrite bool_decide_eq_false_2 by tauto.
Qed.

(** C6.  Each iteration of the second loop of [draw_path] issues exactly
    one draw command when both ends of its segment are visible (a line in
    [ST7735_BLUE] between the two points, each less the corner of the
    window) and none otherwise; so a call that returns leaves one draw
    command for each counter value whose segment has both ends visible,
    in the order of the counter, and none for the other segments. *)
Theorem draw_path_draws_visible_segments (path : list coord_t) (w : world) :
  (forall i : Z,
     exists events : list event,
       draw_segment path i w = (Some tt, with_log (log w ++ events) w) /\
       draws events
       = segment_draws (view w) (element path (stray w) i) (element path (stray w) (i + 1))) /\
  (forall (fuel : nat) (length : Z),
     length <= 255 ->
     (Z.to_nat length < fuel)%nat ->
     exists events : list event,
       draw_path fuel length path w = (Some tt, with_log (log w ++ events) w) /\
       draws events
       = seqZ 0 length ≫= (fun i =>
           segment_draws (view w) (element path (stray w) i)
             (element path (stray w) (i + 1)))).
Proof.
  split.
  - intros i. eexists. split; [apply draw_segment_run|]. apply draws_segment_events.
  - intros fuel length Hlen Hfuel. eexists. split; [by apply draw_path_run|].
    unfold draw_path_events.
    change (draws (?a :: ?b :: ?c :: ?l)) with (draws l).
    rewrite draws_bind. apply list_bind_ext; [|done].
    intros i. apply draws_segment_events.
Qed.

(** The loads of one iteration: its first end, and its second end when the
    first is visible. *)
Lemma load_in_segment_events (m : map_state) (st : Z -> coord_t) (path : list coord_t)
    (i j : Z) (b : bool) :
  Load j b ∈ segment_events m st path i <->
  (j = i /\ b = inside path i) \/
  (j = i + 1 /\ b = inside path (i + 1) /\ in_window m (element path st i)).
Proof.
  unfold segment_events. cbv zeta.
  destruct (decide (in_window m (element path st i))) as [Hp|Hp].
  - rewrite (bool_decide_eq_true_2 _ Hp).
    destruct (bool_decide (in_window m (element path st (i + 1))));
      rewrite ?elem_of_cons, ?elem_of_nil; (split; [intros H|intros H]).
    all: try (destruct H as [[-> ->]|(-> & -> & _)]; tauto).
    all: repeat (destruct H as [H|H];
                 [first [discriminate H | injection H as -> ->; tauto]|]);
         destruct H.
  - rewrite (bool_decide_eq_false_2 _ Hp).
    rewrite ?elem_of_cons, ?elem_of_nil. split.
    + intros [H|[]]. injection H as -> ->. tauto.
    + intros [[-> ->]|(_ & _ & H)]; tauto.
Qed.

(** C2, as amended.  On a path of [length] elements, [1 <= length <= 255],
    the call returns and is the banner, the two reads of [path[0]] and one
    iteration for each index from 0 to [length - 1], in order.  The
    iteration at [i] reads [path[i]]; it reads [path[i+1]] when [path[i]]
    is visible and not otherwise; it reads nothing else.  So the element at
    index [length], one past the last, is read exactly when the last
    element is visible, and no other read leaves the block. *)
Theorem draw_path_reads_past_visible_end (fuel : nat) (length : Z) (path : list coord_t)
    (w : world) :
  1 <= length <= 255 ->
  Z.of_nat (List.length path) = length ->
  (Z.to_nat length < fuel)%nat ->
  exists (iteration : Z -> list event) (events : list event),
    (forall (i : Z) (w0 : world), view w0 = view w -> stray w0 = stray w ->
       draw_segment path i w0 = (Some tt, with_log (log w0 ++ iteration i) w0)) /\
    events = Println (Str "Path Received: ") ::
             Load 0 (inside path 0) :: Load 0 (inside path 0) ::
             (seqZ 0 length ≫= iteration) /\
    draw_path fuel length path w = (Some tt, with_log (log w ++ events) w) /\
    (forall i, Load i (inside path i) ∈ iteration i) /\
    (forall i, (exists b, Load (i + 1) b ∈ iteration i) <->
               in_window (view w) (element path (stray w) i)) /\
    (forall i j b, Load j b ∈ iteration i -> j = i \/ j = i + 1) /\
    (Load length false ∈ events <->
       in_window (view w) (element path (stray w) (length - 1))) /\
    (forall j, Load j false ∈ events -> j = length).
Proof.
  intros Hlen Hpath Hfuel.
  exists (segment_events (view w) (stray w) path). eexists.
  split; [intros i w0 Hv Hs; by rewrite draw_segment_run, Hv, Hs|].
  split; [reflexivity|].
  split; [apply draw_path_run; lia|].
  assert (Hin : forall j, inside path j = bool_decide (0 <= j < length)).
  { intros j. unfold inside. by rewrite Hpath. }
  split; [|split; [|split; [|split]]].
  - intros i. apply load_in_segment_events. by left.
  - intros i. split.
    + intros [b H]. apply load_in_segment_events in H.
      destruct H as [[? _]|(_ & _ & Hvis)]; [lia|done].
    + intros Hvis. exists (inside path (i + 1)).
      apply load_in_segment_events. by right.
  - intros i j b H. apply load_in_segment_events in H.
    destruct H as [[-> _]|(-> & _)]; auto.
  - rewrite !elem_of_cons, list_elem_of_bind. split.
    + intros [?|[H|[H|(i & H & Hi)]]]; [done|..].
      * injection H as -> _. lia.
      * injection H as -> _. lia.
      * apply elem_of_seqZ in Hi. apply load_in_segment_events in H.
        destruct H as [[-> _]|(-> & _ & Hvis)]; [lia|].
        by replace (i + 1 - 1) with i by lia.
    + intros Hvis. right. right. right. exists (length - 1).
      split; [|apply elem_of_seqZ; lia].
      apply load_in_segment_events. right.
      split; [lia|]. split; [|done].
      rewrite Hin. by rewrite bool_decide_eq_false_2 by lia.
  - intros j. rewrite !elem_of_cons, list_elem_of_bind.
    intros [?|[H|[H|(i & H & Hi)]]]; [done|..].
    + injection H as -> H. rewrite Hin in H.
      by rewrite bool_decide_eq_true_2 in H by lia.
    + injection H as -> H. rewrite Hin in H.
      by rewrite bool_decide_eq_true_2 in H by lia.
    + apply elem_of_seqZ in Hi. apply load_in_segment_events in H.
      destruct H as [[-> H]|(-> & H & _)]; rewrite Hin in H.
      * by rewrite bool_decide_eq_true_2 in H by lia.
      * symmetry in H. apply bool_decide_eq_false_1 in H. lia.
Qed.

(** C9.  Against a [length] of 256 or more neither loop of [draw_path] is
    ever left, whatever the fuel, and the call does not return; up to 255
    the call returns.  So [draw_path] returns exactly when [length <= 255]. *)
Theorem draw_path_returns_iff (length : Z) (path : list coord_t) (w : world) :
  (256 <= length ->
     forall fuel : nat,
       (for_uint8 fuel length (fun i => mret tt) 0 w).1 = None /\
       (for_uint8 fuel length (draw_segment path) 0 w).1 = None /\
       (draw_path fuel length path w).1 = None) /\
  (length <= 255 -> (draw_path 257 length path w).1 = Some tt) /\
  ((exists fuel : nat, (draw_path fuel length path w).1 = Some tt) <-> length <= 255).
Proof.
  assert (Hhang : 256 <= length -> forall fuel, (draw_path fuel length path w).1 = None).
  { intros Hlen fuel. unfold draw_path, out, modify.
    unfold mbind at 1, M_bind at 1. cbv beta iota.
    unfold mbind at 1, M_bind at 1.
    pose proof (for_uint8_hangs length (fun _ => mret tt) Hlen fuel 0
                  (emit (Println (Str "Path Received: ")) w)) as H.
    destruct (for_uint8 _ _ _ _ _) as [[[]|] w']; [|done].
    simpl in H. by specialize (H ltac:(lia)). }
  assert (Hret : length <= 255 -> (draw_path 257 length path w).1 = Some tt).
  { intros Hlen. by rewrite draw_path_run by lia. }
  split; [|split; [done|]].
  - intros Hlen fuel. repeat split; [apply for_uint8_hangs..|]; auto; lia.
  - split.
    + intros [fuel Hfuel]. destruct (decide (length <= 255)) as [|Hbig]; [done|].
      rewrite Hhang in Hfuel by lia. done.
    + intros Hlen. exists 257%nat. auto.
Qed.

Lemma logs_only_ret {A} (a : A) : logs_only (mret a).
Proof. intros w. by destruct w. Qed.

Lemma logs_only_hang {A} : logs_only (hang : M A).
Proof. intros w. by destruct w. Qed.

Lemma logs_only_gets {A} (f : world -> A) : logs_only (gets f).
Proof. intros w. by destruct w. Qed.

Lemma logs_only_out (e : event) : logs_only (out e).
Proof. intros w. by destruct w. Qed.

Lemma logs_only_bind {A B} (c : M A) (k : A -> M B) :
  logs_only c -> (forall a, logs_only (k a)) -> logs_only (c ≫= k).
Proof.
  intros Hc Hk w. unfold mbind, M_bind. specialize (Hc w).
  destruct (c w) as [[a|] w1]; simpl in *; [|done].
  rewrite (Hk a w1). by rewrite Hc.
Qed.

Lemma logs_only_load (path : list coord_t) (i : Z) : logs_only (load path i).
Proof. intros w. rewrite load_run. by destruct w. Qed.

Lemma logs_only_is_coord_visible (point : coord_t) : logs_only (is_coord_visible point).
Proof. intros w. rewrite is_coord_visible_run. by destruct w. Qed.

Lemma logs_only_draw_segment (path : list coord_t) (i : Z) : logs_only (draw_segment path i).
Proof. intros w. rewrite draw_segment_run. by destruct w. Qed.

Lemma logs_only_for_uint8 (length : Z) (body : Z -> M unit) :
  (forall j, logs_only (body j)) ->
  forall (fuel : nat) (i : Z), logs_only (for_uint8 fuel length body i).
Proof.
  intros Hbody. induction fuel as [|fuel IH]; intros i; simpl.
  - apply logs_only_hang.
  - destruct (i <? length); [|apply logs_only_ret].
    apply logs_only_bind; [apply Hbody|]. intros _. apply IH.
Qed.

Lemma logs_only_draw_path (fuel : nat) (length : Z) (path : list coord_t) :
  logs_only (draw_path fuel length path).
Proof.
  unfold draw_path.
  apply logs_only_bind; [apply logs_only_out|intros _].
  apply logs_only_bind.
  { apply logs_only_for_uint8. intros j. apply logs_only_ret. }
  intros _. apply logs_only_bind; [apply logs_only_gets|intros m].
  apply logs_only_bind; [apply logs_only_load|intros p].
  apply logs_only_bind; [apply logs_only_load|intros q].
  apply logs_only_for_uint8. intros j. apply logs_only_draw_segment.
Qed.

(** C10.  Whatever the length and however long it runs, [draw_path] leaves
    the map shown, the corner of the window and its width and height as
    they were, and so does [is_coord_visible]. *)
Theorem renderer_keeps_view (fuel : nat) (length : Z) (path : list coord_t)
    (point : coord_t) (w : world) :
  view (draw_path fuel length path w).2 = view w /\
  view (is_coord_visible point w).2 = view w.
Proof.
  split.
  - by rewrite (logs_only_draw_path fuel length path w).
  - by rewrite (logs_only_is_coord_visible point w).
Qed.

End Rendering.

(** * The properties on the bench *)

Section OnTheBench.

Import Bench.

(** C1.  With 4096 bytes available the ceiling is 480; a count line of 256
    followed by 256 coordinate lines, the request granted: [read_path]
    returns 1 with length 0 and an empty array, and has read no coordinate
    line. *)
Theorem read_path_cuts_length_to_8_bits :
  let coords := replicate 256 "10 20" in
  let w := machine 4096 true (Coord 0 0) ("256" :: coords) in
  max_path_size_of (avail_mem w) = 480 /\
  declared_length "256" = 256 /\
  (exists lines, next_lines 256 coords = Some (lines, [])) /\
  read_path w
  = (Some {| returned := 1; length_p := 0; path_p := Some [] |},
     left_by_read_path 0 coords [Malloc 0 true] w).
Proof.
  cbv zeta. split; [done|]. split; [done|]. split.
  - eexists. vm_compute. reflexivity.
  - vm_compute. reflexivity.
Qed.

(** C7.  With 100 bytes available, less than the reserve of 256, the
    ceiling is 8172: a count of 1 passes the check, the block is asked
    for, and [read_path] returns 1.  From 200 to 400 bytes available the
    ceiling falls from 8185 to 18. *)
Theorem low_memory_ceiling_wraps :
  let w := machine 100 true (Coord 0 0) ["1"; "10 20"] in
  max_path_size_of 100 = 8172 /\
  read_path w
  = (Some {| returned := 1; length_p := 1; path_p := Some [ {| lat := 10; lon := 20 |} ] |},
     left_by_read_path 0 [] [Malloc 8 true] w) /\
  max_path_size_of 200 = 8185 /\
  max_path_size_of 400 = 18.
Proof. cbv zeta. repeat split; vm_compute; reflexivity. Qed.

(** C8.  With a length of 0 [draw_path] draws nothing but still reads
    [path[0]], twice and outside the block; with a length of 1, a visible
    point and a visible point's worth of memory behind it, [draw_path]
    draws a line. *)
Theorem draw_path_short_paths :
  let w := machine 4096 true (Coord 150 150) [] in
  log (draw_path 2 0 [] w).2
  = [Println (Str "Path Received: "); Load 0 false; Load 0 false] /\
  draws (log (draw_path 2 0 [] w).2) = [] /\
  (draw_path 2 1 [Coord 110 120] w).1 = Some tt /\
  draws (log (draw_path 2 1 [Coord 110 120] w).2) = [DrawLine 20 10 50 50 ST7735_BLUE].
Proof. cbv zeta. repeat split; vm_compute; reflexivity. Qed.


(** C3 at a count line of -1. *)
Lemma read_path_invalid_length_witness :
  let w := machine 4096 true (Coord 0 0) ["-1"; "10 20"] in
  declared_length "-1" = -1 /\
  read_path w
  = (Some {| returned := 0; length_p := 0; path_p := None |},
     {| path_errno := 1; view := view w; serial_in := ["10 20"]; avail_mem := avail_mem w;
        heap := heap w; stray := stray w; log := log w |}).
Proof.
  cbv zeta. split; [reflexivity|].
  apply (read_path_invalid_length (machine 4096 true (Coord 0 0) ["-1"; "10 20"])
           "-1" 2 ["10 20"]).
  - reflexivity.
  - reflexivity.
  - left. vm_compute. reflexivity.
Defined.

(** C4 as stated fails: the allocator refuses the block for a count of 3,
    and the caller finds the length 3, not 0. *)
Lemma out_of_memory_keeps_length :
  let w := machine 4096 false (Coord 0 0) ["3"; "10 20"; "30 40"; "50 60"] in
  heap w (3 * sizeof_coord_t) = None /\
  exists r w',
    read_path w = (Some r, w') /\
    returned r = 0 /\ path_errno w' = 2 /\ path_p r = None /\ length_p r <> 0.
Proof.
  cbv zeta. split; [reflexivity|].
  eexists. eexists. split; [vm_compute; reflexivity|].
  repeat split. vm_compute. discriminate.
Qed.

(** C4, as amended, at a count line of 3. *)
Lemma read_path_out_of_memory_witness :
  let w := machine 4096 false (Coord 0 0) ["3"; "10 20"; "30 40"; "50 60"] in
  declared_length "3" = 3 /\
  sizeof_coord_t = 8 /\
  read_path w
  = (Some {| returned := 0; length_p := declared_length "3"; path_p := None |},
     left_by_read_path 2 ["10 20"; "30 40"; "50 60"]
       [Malloc (declared_length "3" * sizeof_coord_t) false] w).
Proof.
  cbv zeta. split; [reflexivity|]. split; [reflexivity|].
  apply (read_path_out_of_memory
           (machine 4096 false (Coord 0 0) ["3"; "10 20"; "30 40"; "50 60"])
           "3" 1 ["10 20"; "30 40"; "50 60"]).
  - reflexivity.
  - reflexivity.
  - vm_compute. split; discriminate.
  - vm_compute. discriminate.
  - reflexivity.
Defined.

(** C2 as stated fails: the one point of the path is not visible, and
    [draw_path] returns without a read of [path[1]]. *)
Lemma draw_path_skips_second_end :
  let w := machine 4096 true (Coord 0 0) [] in
  (draw_path 2 1 [Coord 0 0] w).1 = Some tt /\
  log (draw_path 2 1 [Coord 0 0] w).2
  = [Println (Str "Path Received: "); Load 0 true; Load 0 true; Load 0 true] /\
  ~ (forall i, 0 <= i < 1 ->
       exists b, Load (i + 1) b ∈ log (draw_path 2 1 [Coord 0 0] w).2).
Proof.
  cbv zeta. split; [vm_compute; reflexivity|].
  assert (Hlog : log (draw_path 2 1 [Coord 0 0] (machine 4096 true (Coord 0 0) [])).2
                 = [Println (Str "Path Received: "); Load 0 true; Load 0 true; Load 0 true])
    by (vm_compute; reflexivity).
  split; [exact Hlog|].
  intros H. destruct (H 0) as [b Hb]; [lia|].
  rewrite Hlog in Hb. simpl in Hb.
  rewrite !elem_of_cons, elem_of_nil in Hb.
  destruct Hb as [Hb|[Hb|[Hb|[Hb|[]]]]]; discriminate.
Qed.

(** C2, as amended, on a path of one visible point. *)
Lemma draw_path_reads_past_visible_end_witness :
  let w := machine 4096 true (Coord 0 0) [] in
  let path := [Coord 110 120] in
  exists (iteration : Z -> list event) (events : list event),
    (forall (i : Z) (w0 : world), view w0 = view w -> stray w0 = stray w ->
       draw_segment path i w0 = (Some tt, with_log (log w0 ++ iteration i) w0)) /\
    events = Println (Str "Path Received: ") ::
             Load 0 (inside path 0) :: Load 0 (inside path 0) ::
             (seqZ 0 1 ≫= iteration) /\
    draw_path 2 1 path w = (Some tt, with_log (log w ++ events) w) /\
    (forall i, Load i (inside path i) ∈ iteration i) /\
    (forall i, (exists b, Load (i + 1) b ∈ iteration i) <->
               in_window (view w) (element path (stray w) i)) /\
    (forall i j b, Load j b ∈ iteration i -> j = i \/ j = i + 1) /\
    (Load 1 false ∈ events <-> in_window (view w) (element path (stray w) (1 - 1))) /\
    (forall j, Load j false ∈ events -> j = 1).
Proof.
  cbv zeta.
  apply (draw_path_reads_past_visible_end 2 1 [Coord 110 120]
           (machine 4096 true (Coord 0 0) [])).
  - lia.
  - reflexivity.
  - vm_compute. lia.
Defined.

(** C6 on a path of two visible points. *)
Lemma draw_path_draws_visible_segments_witness :
  let w := machine 4096 true (Coord 0 0) [] in
  let path := [Coord 110 120; Coord 130 140] in
  exists events : list event,
    draw_path 3 2 path w = (Some tt, with_log (log w ++ events) w) /\
    draws events
    = seqZ 0 2 ≫= (fun i =>
        segment_draws (view w) (element path (stray w) i) (element path (stray w) (i + 1))).
Proof.
  cbv zeta.
  apply (proj2 (draw_path_draws_visible_segments [Coord 110 120; Coord 130 140]
                  (machine 4096 true (Coord 0 0) [])) 3%nat 2).
  - lia.
  - vm_compute. lia.
Defined.

End OnTheBench.

(** * Further properties of the ingestion *)

Section IngestionFurther.

Context {transport : Transport} {geodesy : Geodesy} {target : Target}.

(** The loop of [read_path] keeps the size of the block and touches
    nothing of the world but the serial line. *)
Lemma read_coords_shape (n : nat) : forall (p : nat) (block : list coord_t) (w : world),
  (read_coords 40 20 n p block w).2
  = with_serial_in (serial_in (read_coords 40 20 n p block w).2) w /\
  (forall b, (read_coords 40 20 n p block w).1 = Some b -> length b = length block).
Proof.
  induction n as [|n IH]; intros p block w; simpl.
  - split; [by rewrite with_serial_in_same|]. by intros b [= <-].
  - unfold mbind, M_bind, readline.
    destruct (serial_readline (serial_in w) 40) as [[[line b] s1]|]; simpl.
    + destruct (string_read_field line 0 20 " ") as [f1 next].
      destruct (string_read_field line next 20 " ") as [f2 next'].
      destruct (IH (S p) (alter (set_lon (string_get_int f2)) p
                            (alter (set_lat (string_get_int f1)) p block))
                  (with_serial_in s1 w)) as [Hw Hb].
      split; [by rewrite Hw at 1|].
      intros b' Hb'. rewrite (Hb b' Hb'). by rewrite !length_alter.
    + split; [by rewrite with_serial_in_same|done].
Qed.

(** When the lines run out before the loop of [read_path] is done, the
    loop is never left. *)
Lemma read_coords_stalls (n : nat) : forall (p : nat) (block : list coord_t) (w : world),
  next_lines n (serial_in w) = None ->
  (read_coords 40 20 n p block w).1 = None.
Proof.
  induction n as [|n IH]; intros p block w Hlines; simpl in *; [done|].
  unfold mbind, M_bind, readline.
  destruct (serial_readline (serial_in w) 40) as [[[line b] s1]|]; simpl; [|done].
  destruct (string_read_field line 0 20 " ") as [f1 next].
  destruct (string_read_field line next 20 " ") as [f2 next'].
  apply IH. simpl. by destruct (next_lines n s1) as [[ls r]|].
Qed.

Lemma next_lines_length (n : nat) : forall (s rest : stream) (lines : list string),
  next_lines n s = Some (lines, rest) -> length lines = n.
Proof.
  induction n as [|n IH]; intros s rest lines Hlines; simpl in *.
  - by injection Hlines as <- _.
  - destruct (serial_readline s 40) as [[[l b] s1]|]; [|done].
    destruct (next_lines n s1) as [[ls r]|] eqn:Hn; [|done].
    injection Hlines as <- _. simpl. f_equal. by eapply IH.
Qed.

(** X1.  For a declared count [N] with [0 <= N <= max_path_size], the block
    granted and the lines there, [read_path] returns 1 with [path_errno] 0,
    one request to [malloc], the length [N mod 256] and the coordinates of
    the first [N mod 256] lines in their order; the serial line stands
    after them.  The length is [N] up to 255 and less than [N] above. *)
Theorem read_path_reads_declared_path (w : world) (line : string) (bytes_read : Z)
    (rest rest' : stream) (junk : nat -> coord_t) (lines : list string) :
  Serial_available (serial_in w) = true ->
  serial_readline (serial_in w) 40 = Some (line, bytes_read, rest) ->
  0 <= declared_length line <= max_path_size_of (avail_mem w) ->
  heap w (declared_length line `mod` 256 * sizeof_coord_t) = Some junk ->
  next_lines (Z.to_nat (declared_length line `mod` 256)) rest = Some (lines, rest') ->
  read_path w
  = (Some {| returned := 1; length_p := declared_length line `mod` 256;
             path_p := Some (parse_coord <$> lines) |},
     {| path_errno := 0; view := view w; serial_in := rest'; avail_mem := avail_mem w;
        heap := heap w; stray := stray w;
        log := log w ++ [Malloc (declared_length line `mod` 256 * sizeof_coord_t) true] |}) /\
  length lines = Z.to_nat (declared_length line `mod` 256) /\
  (declared_length line <= 255 -> declared_length line `mod` 256 = declared_length line) /\
  (256 <= declared_length line -> declared_length line `mod` 256 < declared_length line).
Proof.
  intros Havail Hline Hrange Hheap Hlines.
  pose proof sizeof_coord_t_range as Hs.
  assert (Hmod : 0 <= declared_length line `mod` 256 < 256) by (apply Z.mod_pos_bound; lia).
  assert (Hu8 : to_uint8 (declared_length line) = declared_length line `mod` 256) by done.
  assert (Hu16 : to_uint16 (declared_length line `mod` 256 * sizeof_coord_t)
                 = declared_length line `mod` 256 * sizeof_coord_t)
    by (apply to_uint16_small; nia).
  split; [|split; [|split]].
  - pose proof (read_path_granted w line bytes_read rest rest' junk lines) as H.
    rewrite Hu8, Hu16 in H. by rewrite H.
  - by eapply next_lines_length.
  - intros. apply Z.mod_small. lia.
  - intros. lia.
Qed.

(** Every way in which [read_path] returns. *)
Lemma read_path_returns (w : world) (r : read_path_result) (w' : world) :
  read_path w = (Some r, w') ->
  exists (line : string) (bytes_read : Z) (rest : stream),
    Serial_available (serial_in w) = true /\
    serial_readline (serial_in w) 40 = Some (line, bytes_read, rest) /\
    (((declared_length line < 0 \/ max_path_size_of (avail_mem w) < declared_length line) /\
      r = {| returned := 0; length_p := 0; path_p := None |} /\
      w' = left_by_read_path 1 rest [] w)
     \/
     (0 <= declared_length line <= max_path_size_of (avail_mem w) /\
      heap w (declared_length line `mod` 256 * sizeof_coord_t) = None /\
      r = {| returned := 0; length_p := declared_length line `mod` 256; path_p := None |} /\
      w' = left_by_read_path 2 rest
             [Malloc (declared_length line `mod` 256 * sizeof_coord_t) false] w)
     \/
     (0 <= declared_length line <= max_path_size_of (avail_mem w) /\
      exists (junk : nat -> coord_t) (lines : list string),
        heap w (declared_length line `mod` 256 * sizeof_coord_t) = Some junk /\
        next_lines (Z.to_nat (declared_length line `mod` 256)) rest
        = Some (lines, serial_in w') /\
        r = {| returned := 1; length_p := declared_length line `mod` 256;
               path_p := Some (parse_coord <$> lines) |} /\
        w' = left_by_read_path 0 (serial_in w')
               [Malloc (declared_length line `mod` 256 * sizeof_coord_t) true] w)).
Proof.
  intros Hrun. pose proof sizeof_coord_t_range as Hs.
  destruct (Serial_available (serial_in w)) eqn:Havail; cycle 1.
  { unfold read_path, mbind, M_bind, modify, wait_for_serial in Hrun.
    simpl in Hrun. by rewrite Havail in Hrun. }
  destruct (serial_readline (serial_in w) 40) as [[[line b] rest]|] eqn:Hline; cycle 1.
  { unfold read_path, mbind, M_bind, modify, wait_for_serial, gets, readline in Hrun.
    simpl in Hrun. rewrite Havail in Hrun. simpl in Hrun. by rewrite Hline in Hrun. }
  exists line, b, rest. split; [done|]. split; [done|].
  assert (Hmod : 0 <= declared_length line `mod` 256 < 256) by (apply Z.mod_pos_bound; lia).
  assert (Hu8 : to_uint8 (declared_length line) = declared_length line `mod` 256) by done.
  assert (Hu16 : to_uint16 (declared_length line `mod` 256 * sizeof_coord_t)
                 = declared_length line `mod` 256 * sizeof_coord_t)
    by (apply to_uint16_small; nia).
  destruct (decide (declared_length line < 0
                    \/ max_path_size_of (avail_mem w) < declared_length line)) as [Hbad|Hok].
  { left. split; [done|]. revert Hrun.
    unfold read_path, mbind, M_bind, modify, wait_for_serial, gets, readline,
      with_path_errno. simpl.
    rewrite Havail. simpl. rewrite Hline. simpl. unfold declared_length in *.
    destruct (string_read_field line 0 20 " ") as [field next]. simpl in *.
    set (N := to_int32 (string_get_int field)) in *.
    replace ((N <? 0) || (max_path_size_of (avail_mem w) <? N)) with true.
    - simpl. intros [= <- <-]. split; [done|].
      unfold left_by_read_path. by rewrite app_nil_r.
    - symmetry. apply orb_true_iff. rewrite !Z.ltb_lt. lia. }
  right. assert (Hrange : 0 <= declared_length line <= max_path_size_of (avail_mem w)) by lia.
  destruct (heap w (declared_length line `mod` 256 * sizeof_coord_t)) as [junk|] eqn:Hheap.
  - right. split; [done|]. exists junk.
    destruct (next_lines (Z.to_nat (declared_length line `mod` 256)) rest)
      as [[lines rest']|] eqn:Hlines.
    + exists lines.
      pose proof (read_path_granted w line b rest rest' junk lines) as H.
      rewrite Hu8, Hu16 in H. rewrite H in Hrun by done.
      injection Hrun as <- <-. done.
    + exfalso. revert Hrun.
      unfold read_path, mbind, M_bind, modify, wait_for_serial, gets, readline,
        with_path_errno. simpl.
      rewrite Havail. simpl. rewrite Hline. simpl. unfold declared_length in *.
      destruct (string_read_field line 0 20 " ") as [field next]. simpl in *.
      set (N := to_int32 (string_get_int field)) in *.
      replace (N <? 0) with false by (symmetry; apply Z.ltb_ge; lia).
      replace (max_path_size_of (avail_mem w) <? N) with false
        by (symmetry; apply Z.ltb_ge; lia).
      simpl. unfold malloc. simpl. rewrite Hu8, Hu16, Hheap.
      match goal with
      | |- context [read_coords 40 20 ?n ?p ?blk ?w0] =>
          pose proof (read_coords_stalls n p blk w0 Hlines) as Hstall;
          destruct (read_coords 40 20 n p blk w0) as [[b'|] w1]
      end; [done|]. by intros [=].
  - left. split; [done|]. split; [done|].
    revert Hrun.
    unfold read_path, mbind, M_bind, modify, wait_for_serial, gets, readline,
      with_path_errno. simpl.
    rewrite Havail. simpl. rewrite Hline. simpl. unfold declared_length in *.
    destruct (string_read_field line 0 20 " ") as [field next]. simpl in *.
    set (N := to_int32 (string_get_int field)) in *.
    replace (N <? 0) with false by (symmetry; apply Z.ltb_ge; lia).
    replace (max_path_size_of (avail_mem w) <? N) with false
      by (symmetry; apply Z.ltb_ge; lia).
    simpl. unfold malloc. simpl. rewrite Hu8, Hu16, Hheap.
    by intros [= <- <-].
Qed.

(** X2.  When [read_path] returns, the value returned, the status code and
    the path agree: it returns 1 exactly when [path_errno] is 0 and exactly
    when there is a path, it returns 0 exactly when [path_errno] is 1 or 2;
    with [path_errno] 1 the length is 0 and nothing was asked of [malloc]. *)
Theorem read_path_status_agrees (w : world) (r : read_path_result) (w' : world) :
  read_path w = (Some r, w') ->
  (returned r = 1 \/ returned r = 0) /\
  (returned r = 1 <-> path_errno w' = 0) /\
  (returned r = 1 <-> is_Some (path_p r)) /\
  (returned r = 0 <-> path_errno w' = 1 \/ path_errno w' = 2) /\
  (path_errno w' = 1 -> length_p r = 0 /\ log w' = log w).
Proof.
  intros Hrun. apply read_path_returns in Hrun.
  destruct Hrun as (line & b & rest & _ & _ & Hcases).
  destruct Hcases as [(_ & -> & ->)|[(_ & _ & -> & ->)|(_ & junk & lines & _ & _ & -> & ->)]];
    simpl; rewrite ?app_nil_r.
  all: repeat split; auto; try done; try lia;
    try (by intros [? [=]]); try (intros [|]; done).
Qed.

(** X3.  When [read_path] returns 1, the array it hands over is made of
    the coordinates of the lines that followed the count line, in their
    order, as many as the length says; the serial line stands after them;
    the length is the declared count modulo 256, at most 255 and at most
    [max_path_size]. *)
Theorem read_path_returns_what_was_sent (w : world) (r : read_path_result) (w' : world) :
  read_path w = (Some r, w') ->
  returned r = 1 ->
  exists (line : string) (bytes_read : Z) (rest : stream) (lines : list string),
    serial_readline (serial_in w) 40 = Some (line, bytes_read, rest) /\
    next_lines (Z.to_nat (length_p r)) rest = Some (lines, serial_in w') /\
    path_p r = Some (parse_coord <$> lines) /\
    Z.of_nat (length (parse_coord <$> lines)) = length_p r /\
    length_p r = declared_length line `mod` 256 /\
    0 <= length_p r <= 255 /\
    length_p r <= max_path_size_of (avail_mem w).
Proof.
  intros Hrun Hret. apply read_path_returns in Hrun.
  destruct Hrun as (line & b & rest & _ & Hline & Hcases).
  destruct Hcases as [(_ & -> & _)|[(_ & _ & -> & _)|(Hrange & junk & lines & _ & Hlines & -> & _)]];
    [done..|].
  simpl in *. exists line, b, rest, lines.
  assert (Hmod : 0 <= declared_length line `mod` 256 < 256) by (apply Z.mod_pos_bound; lia).
  pose proof (Z.mod_le (declared_length line) 256).
  repeat split; auto; try lia.
  rewrite length_fmap, (next_lines_length _ _ _ _ Hlines). lia.
Qed.

(** X4.  Whether it returns or not, [read_path] leaves the map state as
    it was and a status code of 0, 1 or 2, and it adds to the log at most
    one event, a request to [malloc]: it prints nothing and draws
    nothing. *)
Theorem read_path_keeps_view (w : world) :
  let w' := (read_path w).2 in
  view w' = view w /\
  (path_errno w' = 0 \/ path_errno w' = 1 \/ path_errno w' = 2) /\
  (log w' = log w \/ exists bytes granted, log w' = log w ++ [Malloc bytes granted]).
Proof.
  cbv zeta.
  unfold read_path, mbind, M_bind, modify, wait_for_serial, gets, readline,
    with_path_errno. simpl.
  destruct (Serial_available (serial_in w)); simpl; [|by repeat split; eauto].
  destruct (serial_readline (serial_in w) 40) as [[[line b] rest]|]; simpl;
    [|by repeat split; eauto].
  destruct (string_read_field line 0 20 " ") as [field next].
  destruct (_ || _); simpl; [by repeat split; eauto|].
  unfold malloc. simpl.
  destruct (heap w _) as [junk|]; simpl; [|by repeat split; eauto].
  match goal with
  | |- context [read_coords 40 20 ?n ?p ?blk ?w0] =>
      destruct (read_coords_shape n p blk w0) as [Hw _];
      destruct (read_coords 40 20 n p blk w0) as [[b'|] w1]
  end; simpl in *; rewrite Hw; simpl; by repeat split; eauto.
Qed.

(** X5.  When the sender stops before the declared number of lines,
    [read_path] does not return: it waits for a line with the block
    granted and [path_errno] 0. *)
Theorem read_path_stalls_on_short_input (w : world) (line : string) (bytes_read : Z)
    (rest : stream) (junk : nat -> coord_t) :
  Serial_available (serial_in w) = true ->
  serial_readline (serial_in w) 40 = Some (line, bytes_read, rest) ->
  0 <= declared_length line <= max_path_size_of (avail_mem w) ->
  heap w (declared_length line `mod` 256 * sizeof_coord_t) = Some junk ->
  next_lines (Z.to_nat (declared_length line `mod` 256)) rest = None ->
  (read_path w).1 = None /\
  path_errno (read_path w).2 = 0 /\
  log (read_path w).2
  = log w ++ [Malloc (declared_length line `mod` 256 * sizeof_coord_t) true].
Proof.
  intros Havail Hline Hrange Hheap Hlines. pose proof sizeof_coord_t_range as Hs.
  assert (Hmod : 0 <= declared_length line `mod` 256 < 256) by (apply Z.mod_pos_bound; lia).
  assert (Hu8 : to_uint8 (declared_length line) = declared_length line `mod` 256) by done.
  assert (Hu16 : to_uint16 (declared_length line `mod` 256 * sizeof_coord_t)
                 = declared_length line `mod` 256 * sizeof_coord_t)
    by (apply to_uint16_small; nia).
  unfold read_path, mbind, M_bind, modify, wait_for_serial, gets, readline,
    with_path_errno. simpl.
  rewrite Havail. simpl. rewrite Hline. simpl. unfold declared_length in *.
  destruct (string_read_field line 0 20 " ") as [field next]. simpl in *.
  set (N := to_int32 (string_get_int field)) in *.
  replace (N <? 0) with false by (symmetry; apply Z.ltb_ge; lia).
  replace (max_path_size_of (avail_mem w) <? N) with false
    by (symmetry; apply Z.ltb_ge; lia).
  simpl. unfold malloc. simpl. rewrite Hu8, Hu16, Hheap.
  match goal with
  | |- context [read_coords 40 20 ?n ?p ?blk ?w0] =>
      pose proof (read_coords_stalls n p blk w0 Hlines) as Hstall;
      destruct (read_coords_shape n p blk w0) as [Hw _];
      destruct (read_coords 40 20 n p blk w0) as [[b'|] w1]
  end; [done|]. simpl in *. rewrite Hw. done.
Qed.

End IngestionFurther.

(** * Further properties of the rendering *)

Section RenderingFurther.

Context {transport : Transport} {geodesy : Geodesy} {target : Target}.

(** X6.  In a window one pixel wide or one pixel high, or less, no point
    is visible: no pixel lies strictly between two neighbouring ones. *)
Theorem is_coord_visible_narrow_window (point : coord_t) (w : world) :
  display_window_width (view w) <= 1 \/ display_window_height (view w) <= 1 ->
  is_coord_visible point w = (Some 0, w).
Proof.
  intros Hnarrow. rewrite is_coord_visible_run.
  rewrite bool_decide_eq_false_2; [done|].
  unfold in_window. lia.
Qed.

(** The draw command of one iteration: there is one when both ends are
    visible, and it joins the two ends on the screen in blue. *)
Lemma draw_in_segment_events (m : map_state) (st : Z -> coord_t) (path : list coord_t)
    (i x0 y0 x1 y1 c : Z) :
  DrawLine x0 y0 x1 y1 c ∈ segment_events m st path i <->
  in_window m (element path st i) /\ in_window m (element path st (i + 1)) /\
  x0 = screen_x m (element path st i) /\ y0 = screen_y m (element path st i) /\
  x1 = screen_x m (element path st (i + 1)) /\ y1 = screen_y m (element path st (i + 1)) /\
  c = ST7735_BLUE.
Proof.
  unfold segment_events. cbv zeta.
  destruct (decide (in_window m (element path st i))) as [Hp|Hp];
    [rewrite (bool_decide_eq_true_2 _ Hp)|rewrite (bool_decide_eq_false_2 _ Hp)];
    [destruct (decide (in_window m (element path st (i + 1)))) as [Hq|Hq];
      [rewrite (bool_decide_eq_true_2 _ Hq)|rewrite (bool_decide_eq_false_2 _ Hq)]|];
    rewrite ?elem_of_cons, ?elem_of_nil; (split; [intros H|intros H]).
  all: try (destruct H as (? & ? & -> & -> & -> & -> & ->); tauto).
  all: repeat (destruct H as [H|H];
               [first [discriminate H | injection H as -> -> -> -> ->; tauto]|]);
       destruct H.
Qed.

(** What a call of [draw_path] that returns has done is the banner, the
    two reads of [path[0]], and the events of some iteration. *)
Lemma in_draw_path_events (m : map_state) (st : Z -> coord_t) (length : Z)
    (path : list coord_t) (e : event) :
  e ∈ draw_path_events m st length path <->
  e = Println (Str "Path Received: ") \/ e = Load 0 (inside path 0) \/
  exists i, 0 <= i < length /\ e ∈ segment_events m st path i.
Proof.
  unfold draw_path_events. rewrite !elem_of_cons, list_elem_of_bind. split.
  - intros [?|[?|[?|(i & Hi & Hseq)]]]; auto.
    right. right. exists i. apply elem_of_seqZ in Hseq. split; [lia|done].
  - intros [?|[?|(i & Hi & He)]]; auto.
    do 3 right. exists i. split; [done|]. apply elem_of_seqZ. lia.
Qed.

(** X7.  Called with a length below the number of elements of the array
    (one less than the number of points, say), [draw_path] returns and
    every element it reads lies in the array, at an index up to the
    length. *)
Theorem draw_path_in_bounds_one_short (fuel : nat) (length : Z) (path : list coord_t)
    (w : world) :
  0 <= length <= 255 ->
  length < Z.of_nat (List.length path) ->
  (Z.to_nat length < fuel)%nat ->
  exists events : list event,
    draw_path fuel length path w = (Some tt, with_log (log w ++ events) w) /\
    (forall j b, Load j b ∈ events -> b = true /\ 0 <= j <= length).
Proof.
  intros Hlen Hpath Hfuel. eexists. split; [apply draw_path_run; lia|].
  intros j b Hload. apply in_draw_path_events in Hload.
  assert (Hin : forall k, 0 <= k <= length -> inside path k = true).
  { intros k Hk. unfold inside. apply bool_decide_eq_true_2. lia. }
  destruct Hload as [?|[H|(i & Hi & H)]]; [done|..].
  - injection H as -> ->. rewrite Hin by lia. split; [done|lia].
  - apply load_in_segment_events in H.
    destruct H as [[-> ->]|(-> & -> & _)]; rewrite Hin by lia; split; (done || lia).
Qed.

(** X8.  When the pixels of the points that [draw_path] meets fit the
    [uint16_t] in which [is_coord_visible] holds them, and the corner of
    the window is not negative, every line drawn is blue and has both
    ends strictly inside the display. *)
Theorem draw_path_lines_inside_window (fuel : nat) (length : Z) (path : list coord_t)
    (w : world) :
  length <= 255 ->
  (Z.to_nat length < fuel)%nat ->
  0 <= screen_map_x (view w) ->
  0 <= screen_map_y (view w) ->
  (forall i, 0 <= i <= length ->
     0 <= longitude_to_x (current_map_num (view w)) (lon (element path (stray w) i)) < 65536 /\
     0 <= latitude_to_y (current_map_num (view w)) (lat (element path (stray w) i)) < 65536) ->
  exists events : list event,
    draw_path fuel length path w = (Some tt, with_log (log w ++ events) w) /\
    (forall x0 y0 x1 y1 c, DrawLine x0 y0 x1 y1 c ∈ events ->
       0 < x0 < display_window_width (view w) /\
       0 < y0 < display_window_height (view w) /\
       0 < x1 < display_window_width (view w) /\
       0 < y1 < display_window_height (view w) /\
       c = ST7735_BLUE).
Proof.
  intros Hlen Hfuel Hx Hy Hfit. eexists. split; [by apply draw_path_run|].
  intros x0 y0 x1 y1 c Hdraw. apply in_draw_path_events in Hdraw.
  destruct Hdraw as [?|[?|(i & Hi & H)]]; [done..|].
  apply draw_in_segment_events in H.
  destruct H as (Hp & Hq & -> & -> & -> & -> & ->).
  assert (Hon : forall k, 0 <= k <= length ->
            in_window (view w) (element path (stray w) k) ->
            0 < screen_x (view w) (element path (stray w) k) < display_window_width (view w) /\
            0 < screen_y (view w) (element path (stray w) k) < display_window_height (view w)).
  { intros k Hk [Hwx Hwy]. destruct (Hfit k Hk) as [Hfx Hfy].
    unfold pixel_x, pixel_y in *. rewrite to_uint16_small in Hwx, Hwy by lia.
    unfold screen_x, screen_y. rewrite !to_int32_small by lia. lia. }
  destruct (Hon i) as [? ?]; [lia|done|].
  destruct (Hon (i + 1)) as [? ?]; [lia|done|]. done.
Qed.

Lemma bind_singletons {A B} (f : A -> list B) (g : A -> B) (l : list A) :
  (forall x, x ∈ l -> f x = [g x]) -> l ≫= f = g <$> l.
Proof.
  induction l as [|x l IH]; intros Hf; [done|].
  rewrite bind_cons, fmap_cons, (Hf x) by (apply elem_of_cons; auto).
  rewrite IH; [done|]. intros y Hy. apply Hf, elem_of_cons. auto.
Qed.

(** X9.  When none of the elements at the indices below the length is
    visible, [draw_path] returns having drawn nothing: after the banner
    and the two reads of [path[0]] it reads each of these elements once,
    in order, and no other. *)
Theorem draw_path_hidden_path (fuel : nat) (length : Z) (path : list coord_t) (w : world) :
  length <= 255 ->
  (Z.to_nat length < fuel)%nat ->
  (forall i, 0 <= i < length -> ~ in_window (view w) (element path (stray w) i)) ->
  draw_path fuel length path w
  = (Some tt,
     with_log (log w ++
       Println (Str "Path Received: ") :: Load 0 (inside path 0) :: Load 0 (inside path 0) ::
       ((fun i => Load i (inside path i)) <$> seqZ 0 length)) w) /\
  draws (log (draw_path fuel length path w).2) = draws (log w).
Proof.
  intros Hlen Hfuel Hhidden.
  assert (Hrun : draw_path fuel length path w
    = (Some tt,
       with_log (log w ++
         Println (Str "Path Received: ") :: Load 0 (inside path 0) ::
         Load 0 (inside path 0) ::
         ((fun i => Load i (inside path i)) <$> seqZ 0 length)) w)).
  { rewrite draw_path_run by done. unfold draw_path_events.
    rewrite (bind_singletons _ (fun i => Load i (inside path i))); [done|].
    intros i Hi. apply elem_of_seqZ in Hi. unfold segment_events. cbv zeta.
    by rewrite bool_decide_eq_false_2 by (apply Hhidden; lia). }
  split; [done|]. rewrite Hrun. cbn [snd]. rewrite log_with_log, draws_app.
  change (draws (?a :: ?b :: ?c :: ?l)) with (draws l).
  assert (Hnone : forall l : list Z, draws ((fun i => Load i (inside path i)) <$> l) = []).
  { induction l as [|x l IH]; [done|]. by rewrite fmap_cons. }
  by rewrite Hnone, app_nil_r.
Qed.

(** The first loop of [draw_path], whose body is empty, against a length
    of 256 or more: it is never left and nothing happens in it. *)
Lemma for_uint8_idle (length : Z) :
  256 <= length ->
  forall (fuel : nat) (i : Z) (w : world),
    0 <= i < 256 -> for_uint8 fuel length (fun _ => mret tt) i w = (None, w).
Proof.
  intros Hlen. induction fuel as [|fuel IH]; intros i w Hi; [done|].
  simpl. replace (i <? length) with true by (symmetry; apply Z.ltb_lt; lia).
  unfold mbind, M_bind. simpl. apply IH, to_uint8_range.
Qed.

(** X10.  Called with a length of 256 or more, [draw_path] prints its
    banner and stays in its first loop: however long it runs, it reads no
    element of the path and draws nothing. *)
Theorem draw_path_stalls_from_256 (fuel : nat) (length : Z) (path : list coord_t)
    (w : world) :
  256 <= length ->
  draw_path fuel length path w
  = (None, with_log (log w ++ [Println (Str "Path Received: ")]) w).
Proof.
  intros Hlen. unfold draw_path, out, modify.
  unfold mbind at 1, M_bind at 1. cbv beta iota.
  unfold mbind at 1, M_bind at 1.
  by rewrite (for_uint8_idle length Hlen fuel 0) by lia.
Qed.

(** X11.  Reading a path and drawing it: for a declared count [N] of at
    most 255 within [max_path_size], the block granted and the [N] lines
    there, [read_path] returns the coordinates of the lines and
    [draw_path], called with what [read_path] returned, returns having
    drawn one line for each index below [N] whose element and the next are
    both visible; the next of the last element is what lies in memory
    behind the array. *)
Theorem read_path_then_draw_path (fuel : nat) (w : world) (line : string) (bytes_read : Z)
    (rest rest' : stream) (junk : nat -> coord_t) (lines : list string) :
  Serial_available (serial_in w) = true ->
  serial_readline (serial_in w) 40 = Some (line, bytes_read, rest) ->
  0 <= declared_length line <= max_path_size_of (avail_mem w) ->
  declared_length line <= 255 ->
  heap w (declared_length line * sizeof_coord_t) = Some junk ->
  next_lines (Z.to_nat (declared_length line)) rest = Some (lines, rest') ->
  (Z.to_nat (declared_length line) < fuel)%nat ->
  exists (r : read_path_result) (w1 : world) (events : list event),
    read_path w = (Some r, w1) /\
    returned r = 1 /\
    length_p r = declared_length line /\
    path_p r = Some (parse_coord <$> lines) /\
    draw_path fuel (length_p r) (parse_coord <$> lines) w1
    = (Some tt, with_log (log w1 ++ events) w1) /\
    draws events
    = seqZ 0 (declared_length line) ≫= (fun i =>
        segment_draws (view w)
          (element (parse_coord <$> lines) (stray w) i)
          (element (parse_coord <$> lines) (stray w) (i + 1))).
Proof.
  intros Havail Hline Hrange Hsmall Hheap Hlines Hfuel.
  pose proof sizeof_coord_t_range as Hs.
  pose proof (read_path_granted w line bytes_read rest rest' junk lines) as Hread.
  rewrite (to_uint8_small (declared_length line)) in Hread by lia.
  rewrite to_uint16_small in Hread by nia.
  specialize (Hread Havail Hline Hrange Hheap Hlines).
  eexists. eexists. eexists. split; [exact Hread|]. cbn [returned length_p path_p].
  split; [done|]. split; [done|]. split; [done|].
  split; [apply draw_path_run; lia|].
  unfold draw_path_events.
  change (draws (?a :: ?b :: ?c :: ?l)) with (draws l).
  rewrite draws_bind. apply list_bind_ext; [|done].
  intros i. apply draws_segment_events.
Qed.

End RenderingFurther.

(** * The further properties on the bench *)

Section FurtherOnTheBench.

Import Bench.

(** X1 at a count line of 2 and two coordinate lines. *)
Lemma read_path_reads_declared_path_witness :
  let w := machine 4096 true (Coord 0 0) ["2"; "10 20"; "30 40"; "x"] in
  let lines := ["10 20"; "30 40"] in
  declared_length "2" `mod` 256 = 2 /\
  parse_coord <$> lines = [Coord 10 20; Coord 30 40] /\
  read_path w
  = (Some {| returned := 1; length_p := declared_length "2" `mod` 256;
             path_p := Some (parse_coord <$> lines) |},
     {| path_errno := 0; view := view w; serial_in := ["x"]; avail_mem := avail_mem w;
        heap := heap w; stray := stray w;
        log := log w ++ [Malloc (declared_length "2" `mod` 256 * sizeof_coord_t) true] |}).
Proof.
  cbv zeta. split; [reflexivity|]. split; [reflexivity|].
  apply (read_path_reads_declared_path
           (machine 4096 true (Coord 0 0) ["2"; "10 20"; "30 40"; "x"])
           "2" 1 ["10 20"; "30 40"; "x"] ["x"] junk ["10 20"; "30 40"]).
  - reflexivity.
  - reflexivity.
  - vm_compute. split; discriminate.
  - reflexivity.
  - vm_compute. reflexivity.
Defined.

(** X2 at a count line of -1. *)
Lemma read_path_status_agrees_witness :
  let w := machine 4096 true (Coord 0 0) ["-1"] in
  let r := {| returned := 0; length_p := 0; path_p := None |} in
  let w' := left_by_read_path 1 [] [] w in
  read_path w = (Some r, w') /\
  (returned r = 1 <-> path_errno w' = 0) /\
  (returned r = 0 <-> path_errno w' = 1 \/ path_errno w' = 2).
Proof.
  cbv zeta.
  assert (Hrun : read_path (machine 4096 true (Coord 0 0) ["-1"])
                 = (Some {| returned := 0; length_p := 0; path_p := None |},
                    left_by_read_path 1 [] [] (machine 4096 true (Coord 0 0) ["-1"])))
    by (vm_compute; reflexivity).
  split; [exact Hrun|].
  destruct (read_path_status_agrees _ _ _ Hrun) as (_ & H1 & _ & H0 & _).
  split; [exact H1|exact H0].
Defined.

(** X3 at a count line of 2 and two coordinate lines. *)
Lemma read_path_returns_what_was_sent_witness :
  let w := machine 4096 true (Coord 0 0) ["2"; "10 20"; "30 40"; "x"] in
  let r := {| returned := 1; length_p := 2; path_p := Some [Coord 10 20; Coord 30 40] |} in
  let w' := left_by_read_path 0 ["x"] [Malloc 16 true] w in
  read_path w = (Some r, w') /\
  exists (line : string) (bytes_read : Z) (rest : list string) (lines : list string),
    serial_readline (serial_in w) 40 = Some (line, bytes_read, rest) /\
    next_lines (Z.to_nat (length_p r)) rest = Some (lines, serial_in w') /\
    path_p r = Some (parse_coord <$> lines) /\
    Z.of_nat (length (parse_coord <$> lines)) = length_p r /\
    length_p r = declared_length line `mod` 256 /\
    0 <= length_p r <= 255 /\
    length_p r <= max_path_size_of (avail_mem w).
Proof.
  cbv zeta.
  assert (Hrun : read_path (machine 4096 true (Coord 0 0) ["2"; "10 20"; "30 40"; "x"])
                 = (Some {| returned := 1; length_p := 2;
                            path_p := Some [Coord 10 20; Coord 30 40] |},
                    left_by_read_path 0 ["x"] [Malloc 16 true]
                      (machine 4096 true (Coord 0 0) ["2"; "10 20"; "30 40"; "x"])))
    by (vm_compute; reflexivity).
  split; [exact Hrun|].
  exact (read_path_returns_what_was_sent _ _ _ Hrun eq_refl).
Defined.

(** X5 at a count line of 2 and one coordinate line. *)
Lemma read_path_stalls_on_short_input_witness :
  let w := machine 4096 true (Coord 0 0) ["2"; "10 20"] in
  (read_path w).1 = None /\
  path_errno (read_path w).2 = 0 /\
  log (read_path w).2 = log w ++ [Malloc (declared_length "2" `mod` 256 * sizeof_coord_t) true].
Proof.
  cbv zeta.
  apply (read_path_stalls_on_short_input (machine 4096 true (Coord 0 0) ["2"; "10 20"])
           "2" 1 ["10 20"] junk).
  - reflexivity.
  - reflexivity.
  - vm_compute. split; discriminate.
  - reflexivity.
  - vm_compute. reflexivity.
Defined.

(** X6 on a machine whose window is one pixel wide. *)
Lemma is_coord_visible_narrow_window_witness :
  let slit := {| current_map_num := 0; screen_map_x := 100; screen_map_y := 100;
                 display_window_width := 1; display_window_height := 160 |} in
  let w := {| path_errno := 0; view := slit; serial_in := @nil string; avail_mem := 4096;
              heap := fun _ => None; stray := fun _ => Coord 0 0; log := [] |} in
  is_coord_visible (Coord 101 101) w = (Some 0, w).
Proof.
  cbv zeta. apply is_coord_visible_narrow_window. left. simpl. lia.
Defined.

(** X7 on an array of two points, called with the length 1. *)
Lemma draw_path_in_bounds_one_short_witness :
  let w := machine 4096 true (Coord 0 0) [] in
  exists events : list event,
    draw_path 2 1 [Coord 110 120; Coord 130 140] w
    = (Some tt, with_log (log w ++ events) w) /\
    (forall j b, Load j b ∈ events -> b = true /\ 0 <= j <= 1).
Proof.
  cbv zeta.
  apply (draw_path_in_bounds_one_short 2 1 [Coord 110 120; Coord 130 140]
           (machine 4096 true (Coord 0 0) [])).
  - lia.
  - simpl. lia.
  - vm_compute. lia.
Defined.

(** X8 on an array of two visible points, called with the length 1. *)
Lemma draw_path_lines_inside_window_witness :
  let w := machine 4096 true (Coord 0 0) [] in
  exists events : list event,
    draw_path 2 1 [Coord 110 120; Coord 130 140] w
    = (Some tt, with_log (log w ++ events) w) /\
    (forall x0 y0 x1 y1 c, DrawLine x0 y0 x1 y1 c ∈ events ->
       0 < x0 < display_window_width (view w) /\
       0 < y0 < display_window_height (view w) /\
       0 < x1 < display_window_width (view w) /\
       0 < y1 < display_window_height (view w) /\
       c = ST7735_BLUE).
Proof.
  cbv zeta.
  apply (draw_path_lines_inside_window 2 1 [Coord 110 120; Coord 130 140]
           (machine 4096 true (Coord 0 0) [])).
  - lia.
  - vm_compute. lia.
  - simpl. lia.
  - simpl. lia.
  - intros i Hi. assert (Hcases : i = 0 \/ i = 1) by lia.
    destruct Hcases as [->| ->]; simpl; lia.
Defined.

(** X9 on a path of two points outside the window. *)
Lemma draw_path_hidden_path_witness :
  let w := machine 4096 true (Coord 0 0) [] in
  let path := [Coord 0 0; Coord 5 5] in
  draw_path 3 2 path w
  = (Some tt,
     with_log (log w ++
       Println (Str "Path Received: ") :: Load 0 (inside path 0) :: Load 0 (inside path 0) ::
       ((fun i => Load i (inside path i)) <$> seqZ 0 2)) w) /\
  draws (log (draw_path 3 2 path w).2) = draws (log w).
Proof.
  cbv zeta.
  apply (draw_path_hidden_path 3 2 [Coord 0 0; Coord 5 5]
           (machine 4096 true (Coord 0 0) [])).
  - lia.
  - vm_compute. lia.
  - intros i Hi. assert (Hcases : i = 0 \/ i = 1) by lia.
    destruct Hcases as [->| ->]; vm_compute; intros [[H _] _]; discriminate H.
Defined.

(** X10 at a length of 256. *)
Lemma draw_path_stalls_from_256_witness :
  let w := machine 4096 true (Coord 0 0) [] in
  draw_path 600 256 [Coord 110 120] w
  = (None, with_log (log w ++ [Println (Str "Path Received: ")]) w).
Proof.
  cbv zeta.
  apply (draw_path_stalls_from_256 600 256 [Coord 110 120]
           (machine 4096 true (Coord 0 0) [])).
  lia.
Defined.

(** X11 at a count line of 2 and two visible points. *)
Lemma read_path_then_draw_path_witness :
  let w := machine 4096 true (Coord 0 0) ["2"; "110 120"; "130 140"] in
  let lines := ["110 120"; "130 140"] in
  exists (r : read_path_result) (w1 : world) (events : list event),
    read_path w = (Some r, w1) /\
    returned r = 1 /\
    length_p r = declared_length "2" /\
    path_p r = Some (parse_coord <$> lines) /\
    draw_path 3 (length_p r) (parse_coord <$> lines) w1
    = (Some tt, with_log (log w1 ++ events) w1) /\
    draws events
    = seqZ 0 (declared_length "2") ≫= (fun i =>
        segment_draws (view w)
          (element (parse_coord <$> lines) (stray w) i)
          (element (parse_coord <$> lines) (stray w) (i + 1))).
Proof.
  cbv zeta.
  apply (read_path_then_draw_path 3
           (machine 4096 true (Coord 0 0) ["2"; "110 120"; "130 140"])
           "2" 1 ["110 120"; "130 140"] [] junk ["110 120"; "130 140"]).
  - reflexivity.
  - reflexivity.
  - vm_compute. split; discriminate.
  - vm_compute. discriminate.
  - reflexivity.
  - vm_compute. reflexivity.
  - vm_compute. lia.
Defined.

End FurtherOnTheBench.
